(** * kju: a self-tuning batching queue (lib/kju.js)

    A shallow embedding of [lib/kju.js] and the properties of its buffer,
    its interval controller, its metrics and its backup / recovery code.

    Conventions of the embedding.
    - JavaScript numbers are exact rationals ([Q]); the counters [length],
      [drained], [processed] and the time stamps are integers ([Z]).  The
      value [NaN] only arises in [metrics] and has a type of its own there.
    - The instance ([this]) is the record [kju]; everything around it that
      the methods touch (the signals it emitted, the file system, the console,
      the exit listeners of the process, the callbacks the event loop still
      has to run) is gathered in the record [world].
    - A method is a function [world -> world]; code that can throw returns a
      [completion] next to the world.
    - [JSON.parse] is a built-in of the host: it is a parameter of the
      recovery code. *)

From Stdlib Require Import ZArith QArith Qabs Qround Qminmax List String Ascii Bool Lia.
From Stdlib Require Import DecimalString Lqa.
Import ListNotations.

Local Open Scope string_scope.
Local Open Scope Z_scope.
#[local] Set Warnings "-register-all".

(** ** Values, signals, files *)

(** The items of the queue are JavaScript values; the ones that survive a trip
    through JSON, and [undefined]. *)
Inductive value : Type :=
| VUndefined
| VNull
| VBool (b : bool)
| VNumber (q : Q)
| VString (s : string)
| VArray (elements : list value)
| VObject (fields : list (string * value)).

(** The signals of the instance, one constructor per event name the source
    passes to [emit]; an [Error] object is its message. *)
Inductive event : Type :=
| Enabled
| Disabled
| Data (batch : list value) (count : Z)
| WarningMaximum
| WarningMinimum
| Error (message : string)
| ErrorBackup (err : string)
| ErrorRecover (err : string).

(** What a piece of code that may throw ends with. *)
Inductive exn : Type :=
| ReferenceError (identifier : string)
| FsError (message : string).

Inductive completion : Type :=
| Normal
| Throws (e : exn).

(** The file system: absolute path to node.  An [Unreadable] node exists but
    every read of it fails with the given error. *)
Inductive node : Type :=
| Directory (entries : list string)
| File (contents : string)
| Unreadable (err : string).

Definition filesystem : Type := list (string * node).

Inductive io (A : Type) : Type :=
| Ok (a : A)
| Err (err : string).
Arguments Ok {A} a.
Arguments Err {A} err.

Fixpoint lookup (p : string) (d : filesystem) : option node :=
  match d with
  | [] => None
  | (q, n) :: rest => if String.eqb p q then Some n else lookup p rest
  end.

(** [path.exists] and [path.existsSync]. *)
Definition exists_ (d : filesystem) (p : string) : bool :=
  match lookup p d with Some _ => true | None => false end.

(** [fs.readdir] and [fs.readdirSync]. *)
Definition readdir (d : filesystem) (p : string) : io (list string) :=
  match lookup p d with
  | Some (Directory entries) => Ok entries
  | Some (File _) => Err ("ENOTDIR, " ++ p)
  | Some (Unreadable err) => Err err
  | None => Err ("ENOENT, " ++ p)
  end.

(** [fs.readFile], the contents already decoded as utf8. *)
Definition readFile (d : filesystem) (p : string) : io string :=
  match lookup p d with
  | Some (File contents) => Ok contents
  | Some (Directory _) => Err ("EISDIR, " ++ p)
  | Some (Unreadable err) => Err err
  | None => Err ("ENOENT, " ++ p)
  end.

(** [/\.kju$/.test(file)]: the name ends in [.kju]. *)
Definition is_kju (file : string) : bool :=
  let n := String.length file in
  (4 <=? n)%nat && String.eqb (substring (n - 4) 4 file) ".kju".

(** ** The instance *)

Record kju : Type := mk_kju {
  limit : Q;
  ms : Q;
  interval : Q;
  warnings : bool;
  enabled : bool;
  recover : bool;
  path : string;
  name : string;
  buffer : list value;
  length : Z;
  drained : Z;
  processed : Z;
  since : Z;
  minimum : Q;
  maximum : Q;
  (** the pending timer, by its delay; [None] when the property is absent *)
  timeout : option Q
}.

(** The callbacks the source hands to asynchronous calls. *)
Inductive callback : Type :=
| ExistsPath              (* recovery: [path.exists(this.path, existsPath)] *)
| Filter                  (* recovery: [fs.readdir(self.path, filter)] *)
| ReadFile (file : string)(* recovery: [fs.readFile(self.path + file, readFile)] *)
| Exists.                 (* constructor: [path.exists(this.path, exists)] *)

Record world : Type := mk_world {
  self : kju;
  emitted : list event;        (* oldest first *)
  disk : filesystem;
  console : list string;       (* oldest first *)
  exit_listeners : nat;        (* listeners of the process's [exit] event *)
  pending : list callback      (* asynchronous calls not yet completed *)
}.

Definition with_self (k : kju) (w : world) : world :=
  mk_world k (emitted w) (disk w) (console w) (exit_listeners w) (pending w).

(** [this.emit(...)]: the signal is appended to the log.  The listeners, and
    what the emitter does where there is none, are not part of the model. *)
Definition emit (e : event) (w : world) : world :=
  mk_world (self w) (emitted w ++ [e]) (disk w) (console w)
           (exit_listeners w) (pending w).

Definition console_log (s : string) (w : world) : world :=
  mk_world (self w) (emitted w) (disk w) (console w ++ [s])
           (exit_listeners w) (pending w).

Definition on_exit (w : world) : world :=
  mk_world (self w) (emitted w) (disk w) (console w)
           (S (exit_listeners w)) (pending w).

Definition later (c : list callback) (w : world) : world :=
  mk_world (self w) (emitted w) (disk w) (console w)
           (exit_listeners w) (pending w ++ c).

Definition set_interval (i : Q) (k : kju) : kju :=
  mk_kju (limit k) (ms k) i (warnings k) (enabled k) (recover k) (path k)
         (name k) (buffer k) (length k) (drained k) (processed k) (since k)
         (minimum k) (maximum k) (timeout k).

Definition set_timeout (t : option Q) (k : kju) : kju :=
  mk_kju (limit k) (ms k) (interval k) (warnings k) (enabled k) (recover k)
         (path k) (name k) (buffer k) (length k) (drained k) (processed k)
         (since k) (minimum k) (maximum k) t.

Definition Qlt_bool (x y : Q) : bool := negb (Qle_bool y x).

(** ** Buffer store *)

(** [kju.prototype.drain]: publish the whole buffer, count it, reset. *)
Definition drain (w : world) : world :=
  let k := self w in
  let w := emit (Data (buffer k) (length k)) w in
  with_self
    (mk_kju (limit k) (ms k) (interval k) (warnings k) (enabled k) (recover k)
            (path k) (name k)
            []                           (* this.buffer.splice(0) *)
            0                            (* this.length = 0 *)
            (drained k + 1)              (* this.drained++ *)
            (processed k + length k)     (* this.processed += this.length *)
            (since k) (minimum k) (maximum k) (timeout k))
    w.

(** [kju.prototype.update]: one tick of the scheduler. *)
Definition update (w : world) : world :=
  let k := self w in
  match timeout k with
  | None => w
  | Some _ =>
    let k := set_timeout None k in
    let len := inject_Z (length k) in
    let w :=
      if (length k =? 0) || Qlt_bool len (limit k) then
        let i := if Qle_bool (maximum k) (interval k)
                 then maximum k
                 else (interval k + ms k)%Q in
        let w := with_self (set_interval i k) w in
        if warnings k && Qeq_bool i (maximum k)
        then emit WarningMaximum w else w
      else if Qle_bool (limit k) len then
        let i := if Qle_bool (interval k) (minimum k)
                 then minimum k
                 else (interval k - ms k)%Q in
        let w := with_self (set_interval i k) w in
        if warnings k && Qeq_bool i (minimum k)
        then emit WarningMinimum w else w
      else with_self k w in
    let k := self w in
    let w := with_self (set_timeout (Some (interval k)) k) w in
    if negb (length k =? 0) then drain w else w
  end.

(** [kju.prototype.push].  Its last statement, [this.update.bind(this)],
    builds a bound function and drops it: [update] is not applied. *)
Definition push (items : list value) (w : world) : world :=
  let k := self w in
  let k :=
    mk_kju (limit k) (ms k) (interval k) (warnings k) (enabled k) (recover k)
           (path k) (name k)
           (buffer k ++ items)
           (length k + Z.of_nat (List.length items))
           (drained k) (processed k) (since k) (minimum k) (maximum k)
           (timeout k) in
  let w := with_self k w in
  if Qle_bool (limit k) (inject_Z (length k))
  then let bound := update in w
  else w.

(** [kju.prototype.forEach]. *)
Definition forEach {A : Type} (fn : value -> A -> A) (w : world) (a : A) : A :=
  fold_left (fun acc v => fn v acc) (buffer (self w)) a.

(** ** Scheduler *)

(** [kju.prototype.enable]. *)
Definition enable (w : world) : world :=
  let k := self w in
  match timeout k with
  | Some _ => w
  | None =>
    let w := with_self (set_timeout (Some (interval k)) k) w in
    let w := on_exit w in
    emit Enabled w
  end.

(** [kju.prototype.disable].  [removeListener] is given a freshly bound
    function, which is no listener of [exit]: none is removed. *)
Definition disable (nocommit : bool) (w : world) : world :=
  match timeout (self w) with
  | None => w
  | Some _ =>
    let w := if negb (length (self w) =? 0) && negb nocommit
             then drain w else w in
    let w := with_self (set_timeout None (self w)) w in
    emit Disabled w
  end.

(** ** Configuration and construction *)

(** The options the constructor documents; [None] leaves the default.  (The
    loop [for (option in configuration)] copies every key; keys beyond the
    documented ones are outside this model.) *)
Record configuration : Type := mk_configuration {
  cfg_limit : option Q;
  cfg_ms : option Q;
  cfg_interval : option Q;
  cfg_warnings : option bool;
  cfg_enabled : option bool;
  cfg_recover : option bool;
  cfg_path : option string;
  cfg_name : option string
}.

Definition defaults : configuration :=
  mk_configuration None None None None None None None None.

Definition or_default {A : Type} (o : option A) (d : A) : A :=
  match o with Some a => a | None => d end.

(** [kju.prototype.recovery]: its synchronous part only asks whether the
    path exists; the rest happens in the callbacks, see [run_callback]. *)
Definition recovery (w : world) : world := later [ExistsPath] w.

(** [new kju(configuration)], up to the constructor's return, in a fresh
    process: [dirname] is [__dirname], [now] is [Date.now()]. *)
Definition kju_new (dirname : string) (now : Z) (cfg : configuration)
    (d : filesystem) : world :=
  let i := or_default (cfg_interval cfg) 15000%Q in
  let k :=
    mk_kju (or_default (cfg_limit cfg) 500%Q)
           (or_default (cfg_ms cfg) 100%Q)
           i
           (or_default (cfg_warnings cfg) true)
           (or_default (cfg_enabled cfg) true)
           (or_default (cfg_recover cfg) true)
           (or_default (cfg_path cfg) (dirname ++ "/"))
           (or_default (cfg_name cfg) "kju.{sequence}.kju")
           [] 0 0 0 now
           (i / 2)%Q
           (i * 2)%Q
           None in
  let w := mk_world k [] d [] 0 [] in
  let w := if recover k then recovery w else w in
  let w := if enabled k then enable w else w in
  later [Exists] w.

(** ** Metrics *)

(** The result of an arithmetic expression: a number or [NaN]. *)
Inductive number : Type :=
| Num (q : Q)
| NaN.

(** [ToNumber] of a function object, which is what [this.drain] is. *)
Definition ToNumber_method : number := NaN.

Definition number_div (a : number) (b : Q) : number :=
  match a with
  | Num q => Num (q / b)
  | NaN => NaN
  end.

Definition decimal (n : Z) : string :=
  NilZero.string_of_uint (N.to_uint (Z.to_N n)).

(** [Number.prototype.toFixed(2)] for magnitudes below 10^21: the nearest
    multiple of 1/100, the larger one on a tie, printed with two decimals. *)
Definition toFixed2 (x : number) : string :=
  match x with
  | NaN => "NaN"
  | Num q =>
    let sign := if Qlt_bool q 0 then "-" else EmptyString in
    let n := Qfloor (Qabs q * 100 + (1 # 2)) in
    sign ++ decimal (n / 100) ++ "."
         ++ decimal (n mod 100 / 10) ++ decimal (n mod 10)
  end.

(** The object [metrics] returns; each field is named after its key. *)
Record snapshot : Type := mk_snapshot {
  key_drain : Z;
  key_processed : Z;
  key_uptime : Z;
  key_interval : Q;
  key_items_per_minute : string;
  key_drains_per_minute : string
}.

(** [kju.prototype.metrics], with [now] for [Date.now()]. *)
Definition metrics (now : Z) (w : world) : snapshot :=
  let k := self w in
  let uptime := if since k =? 0 then 0 else now - since k in
  let minute := inject_Z (1000 * 60) in
  mk_snapshot
    (drained k)
    (processed k)
    uptime
    (interval k)
    (toFixed2 (number_div (Num (inject_Z (processed k))) minute))
    (toFixed2 (number_div ToNumber_method minute)).

(** ** Persistence *)

(** [kju.prototype.backup]: list the [.kju] files of the path, and return. *)
Definition backup (w : world) : world * completion :=
  let k := self w in
  if negb (exists_ (disk w) (path k)) then (w, Normal)
  else
    let w := console_log "backing uppa" w in
    match readdir (disk w) (path k) with
    | Err e => (w, Throws (FsError e))
    | Ok entries => let files := filter is_kju entries in (w, Normal)
    end.

(** Sequencing of code that may throw. *)
Definition andthen (m : world * completion)
    (f : world -> world * completion) : world * completion :=
  match m with
  | (w, Normal) => f w
  | (w, Throws e) => (w, Throws e)
  end.

(** The identifier [done] is bound nowhere in the module, neither in
    [recovery] nor at top level: calling it throws. *)
Definition done (w : world) : world * completion :=
  (w, Throws (ReferenceError "done")).

Definition set_pending (c : list callback) (w : world) : world :=
  mk_world (self w) (emitted w) (disk w) (console w) (exit_listeners w) c.

Section Recovery.

(** [JSON.parse]; [None] when it throws a SyntaxError. *)
Variable JSON_parse : string -> option value.

(** The argument list [Function.prototype.apply] builds from an object that
    is no array (from its [length] and its indexed properties). *)
Variable array_like : list (string * value) -> list value.

(** The arguments [self.push.apply(self, todo)] passes on; [None] when
    [apply] throws a TypeError. *)
Definition arguments_of (todo : value) : option (list value) :=
  match todo with
  | VArray elements => Some elements
  | VNull | VUndefined => Some []
  | VObject fields => Some (array_like fields)
  | VBool _ | VNumber _ | VString _ => None
  end.

Definition corrupted (file : string) : event :=
  ErrorRecover ("corrupted file, unable to parse contents of " ++ file).

(** The callback [readFile] of [read (file, index, files)]. *)
Definition readFile_cb (file : string) (w : world) : world * completion :=
  match readFile (disk w) (path (self w) ++ file) with
  | Err err =>
    (* return done(), self.emit('error.recover', err) *)
    andthen (done w) (fun w => (emit (ErrorRecover err) w, Normal))
  | Ok contents =>
    let w :=
      match JSON_parse contents with
      | None => emit (corrupted file) w
      | Some todo =>
        match arguments_of todo with
        | None => emit (corrupted file) w
        | Some items => push items w
        end
      end in
    done w
  end.

(** One asynchronous completion. *)
Definition run_callback (c : callback) (w : world) : world * completion :=
  let k := self w in
  match c with
  | ExistsPath =>
    if negb (exists_ (disk w) (path k)) then (w, Normal)
    else (later [Filter] w, Normal)
  | Filter =>
    match readdir (disk w) (path k) with
    | Err err => (emit (ErrorBackup err) w, Normal)
    | Ok files =>
      let kjud := filter is_kju files in
      (* kjud.forEach(read) *)
      (later (map ReadFile kjud) w, Normal)
    end
  | ReadFile file => readFile_cb file w
  | Exists =>
    if negb (exists_ (disk w) (path k))
    then (emit (Error (path k ++ " does not exist.")) w, Normal)
    else (w, Normal)
  end.

(** The event loop, completions in the order the calls were issued.  An
    exception that leaves a callback is uncaught: it ends the process,
    unless the host listens to [uncaughtException] ([handler]).  Returns
    the exceptions that went uncaught. *)
Fixpoint event_loop (handler : bool) (fuel : nat) (w : world)
    : world * list exn :=
  match fuel with
  | O => (w, [])
  | S fuel =>
    match pending w with
    | [] => (w, [])
    | c :: rest =>
      match run_callback c (set_pending rest w) with
      | (w, Normal) => event_loop handler fuel w
      | (w, Throws e) =>
        if handler
        then let (w, es) := event_loop handler fuel w in (w, e :: es)
        else (w, [e])
      end
    end
  end.

End Recovery.

(** ** Instances used by the examples *)

Definition dquote : ascii := ascii_of_nat 34.
Definition backslash : ascii := ascii_of_nat 92.

(** [quoted s] is the JSON string literal of a plain [s]. *)
Definition quoted (s : string) : string :=
  String dquote (s ++ String dquote EmptyString).

Inductive mode : Type :=
| AtStart
| AtFirst
| InLiteral (lit : string)
| AfterLiteral
| AtNext
| AtEnd.

Fixpoint scan (text : string) (m : mode) (acc : list value)
    : option (list value) :=
  match text with
  | EmptyString => match m with AtEnd => Some acc | _ => None end
  | String c rest =>
    match m with
    | AtStart => if Ascii.eqb c "[" then scan rest AtFirst acc else None
    | AtFirst =>
      if Ascii.eqb c "]" then scan rest AtEnd acc
      else if Ascii.eqb c dquote then scan rest (InLiteral EmptyString) acc
      else None
    | InLiteral lit =>
      if Ascii.eqb c dquote then scan rest AfterLiteral (acc ++ [VString lit])
      else if Ascii.eqb c backslash then None
      else if (nat_of_ascii c <? 32)%nat then None
      else scan rest (InLiteral (lit ++ String c EmptyString)) acc
    | AfterLiteral =>
      if Ascii.eqb c "," then scan rest AtNext acc
      else if Ascii.eqb c "]" then scan rest AtEnd acc
      else None
    | AtNext =>
      if Ascii.eqb c dquote then scan rest (InLiteral EmptyString) acc
      else None
    | AtEnd => None
    end
  end.

(** [JSON.parse] on the texts of the examples: an array of string literals
    without escapes, control characters or white space parses to that
    array; the examples' other texts are no JSON and are rejected. *)
Definition parse_strings (text : string) : option value :=
  match scan text AtStart [] with
  | Some items => Some (VArray items)
  | None => None
  end.

(** No example passes an object to [apply]. *)
Definition no_objects (fields : list (string * value)) : list value := [].

(** [new kju(cfg)] followed by the event loop until no callback is left. *)
Definition start (handler : bool) (now : Z) (cfg : configuration)
    (d : filesystem) : world * list exn :=
  event_loop parse_strings no_objects handler 16 (kju_new "/srv/kju/lib" now cfg d).

Definition with_path (p : string) (cfg : configuration) : configuration :=
  mk_configuration (cfg_limit cfg) (cfg_ms cfg) (cfg_interval cfg)
    (cfg_warnings cfg) (cfg_enabled cfg) (cfg_recover cfg) (Some p)
    (cfg_name cfg).

Definition with_limit (l : Q) (cfg : configuration) : configuration :=
  mk_configuration (Some l) (cfg_ms cfg) (cfg_interval cfg)
    (cfg_warnings cfg) (cfg_enabled cfg) (cfg_recover cfg) (cfg_path cfg)
    (cfg_name cfg).

Definition with_pace (i step : Q) (cfg : configuration) : configuration :=
  mk_configuration (cfg_limit cfg) (Some step) (Some i)
    (cfg_warnings cfg) (cfg_enabled cfg) (cfg_recover cfg) (cfg_path cfg)
    (cfg_name cfg).

(** [ticks n]: the timer fires [n] times in a row. *)
Fixpoint ticks (n : nat) (w : world) : world :=
  match n with
  | O => w
  | S n => ticks n (update w)
  end.

(** The invariant of the data model: [length] counts the buffer. *)
Definition consistent (w : world) : Prop :=
  length (self w) = Z.of_nat (List.length (buffer (self w))).

Definition is_data (e : event) : bool :=
  match e with Data _ _ => true | _ => false end.

Definition is_recover_error (e : event) : bool :=
  match e with ErrorRecover _ => true | _ => false end.

Definition lib : string := "/srv/kju/lib".

(** A persistence directory with the given files, each a name and a node. *)
Definition directory (p : string) (files : list (string * node)) : filesystem :=
  (p, Directory (map fst files))
    :: map (fun f => (p ++ fst f, snd f)) files.

(** The JSON text of an array of plain strings. *)
Definition json_strings (l : list string) : string :=
  "[" ++ String.concat "," (map quoted l) ++ "]".

Definition data_dir : configuration := with_path "/data/" defaults.

(** ** Runs of the instance *)

(** What can happen to an instance: a call of one of its methods, or the
    completion of the oldest asynchronous call still pending. *)
Inductive call : Type :=
| Push (items : list value)
| Drain
| Update
| Enable
| Disable (nocommit : bool)
| Complete.

Section Runs.

Variable JSON_parse : string -> option value.
Variable array_like : list (string * value) -> list value.

(** [Complete] runs the callback to its end; an exception leaving it is taken
    up by the host. *)
Definition apply_call (c : call) (w : world) : world :=
  match c with
  | Push items => push items w
  | Drain => drain w
  | Update => update w
  | Enable => enable w
  | Disable nocommit => disable nocommit w
  | Complete =>
    match pending w with
    | [] => w
    | cb :: rest =>
      fst (run_callback JSON_parse array_like cb (set_pending rest w))
    end
  end.

Fixpoint calls (cs : list call) (w : world) : world :=
  match cs with
  | [] => w
  | c :: cs => calls cs (apply_call c w)
  end.

(** The items a recovery file holds for the instance: the arguments [apply]
    makes of its parsed contents, none where the read or the parse fails. *)
Definition recovered_items (w : world) (file : string) : list value :=
  match readFile (disk w) (path (self w) ++ file) with
  | Err _ => []
  | Ok contents =>
    match JSON_parse contents with
    | None => []
    | Some todo =>
      match arguments_of array_like todo with
      | None => []
      | Some items => items
      end
    end
  end.

(** The items that enter the buffer in one step, and in a run. *)
Definition arrived (c : call) (w : world) : list value :=
  match c with
  | Push items => items
  | Complete =>
    match pending w with
    | ReadFile file :: _ => recovered_items w file
    | _ => []
    end
  | _ => []
  end.

Fixpoint arrivals (cs : list call) (w : world) : list value :=
  match cs with
  | [] => []
  | c :: cs => (arrived c w ++ arrivals cs (apply_call c w))%list
  end.

End Runs.

(** The batches published so far, one after the other. *)
Definition batch (e : event) : list value :=
  match e with Data items _ => items | _ => [] end.

Definition published (w : world) : list value := flat_map batch (emitted w).

(** A data signal whose count is the size of its batch. *)
Definition counted (e : event) : Prop :=
  match e with
  | Data items count => count = Z.of_nat (List.length items)
  | _ => True
  end.

(** The pending timer, where there is one, waits for the current interval. *)
Definition armed (w : world) : Prop :=
  timeout (self w) = None \/ timeout (self w) = Some (interval (self w)).

Definition is_warning (e : event) : bool :=
  match e with WarningMaximum | WarningMinimum => true | _ => false end.

Definition is_maximum_warning (e : event) : bool :=
  match e with WarningMaximum => true | _ => false end.

(** [n] times: enable, then disable. *)
Fixpoint cycles (n : nat) (nocommit : bool) (w : world) : world :=
  match n with
  | O => w
  | S n => cycles n nocommit (disable nocommit (enable w))
  end.


(** Calls that neither start the timer nor drain by themselves. *)
Definition passive (c : call) : bool :=
  match c with
  | Push _ | Update | Disable _ | Complete => true
  | Drain | Enable => false
  end.

(** What holds of an instance from its construction on. *)
Definition sound (w : world) : Prop :=
  consistent w /\
  Forall counted (emitted w) /\
  armed w /\
  drained (self w) = Z.of_nat (List.length (filter is_data (emitted w))).


(** [n] rounds of a busy producer: the items are pushed, then the timer
    fires. *)
Fixpoint rounds (n : nat) (items : list value) (w : world) : world :=
  match n with
  | O => w
  | S n => rounds n items (update (push items w))
  end.

Definition is_minimum_warning (e : event) : bool :=
  match e with WarningMinimum => true | _ => false end.

(** [JSON.parse] on a few more texts of the examples: the literals null,
    true and 7, and the arrays of [parse_strings]. *)
Definition parse_literals (text : string) : option value :=
  if String.eqb text "null" then Some VNull
  else if String.eqb text "true" then Some (VBool true)
  else if String.eqb text "7" then Some (VNumber 7)
  else parse_strings text.

Definition is_primitive (todo : value) : bool :=
  match todo with
  | VBool _ | VNumber _ | VString _ => true
  | _ => false
  end.

(** * Properties *)

Ltac open_world w :=
  let k := fresh "k" in
  destruct w as [k ? ? ? ? ?]; destruct k; cbn in *.

(** Case analysis on the conditions of the goal, innermost first. *)
Ltac split_ifs :=
  repeat match goal with
         | |- context [if ?b then _ else _] =>
           lazymatch b with
           | context [if _ then _ else _] => fail
           | _ => destruct b; cbn
           end
         end.

(** ** The invariant [length == size(buffer)] *)

Lemma consistent_new (dirname : string) (now : Z) (cfg : configuration)
    (d : filesystem) :
  consistent (kju_new dirname now cfg d).
Proof.
  unfold consistent, kju_new, recovery, enable.
  destruct (or_default (cfg_recover cfg) true),
           (or_default (cfg_enabled cfg) true); reflexivity.
Qed.

Lemma consistent_push (items : list value) (w : world) :
  consistent w -> consistent (push items w).
Proof.
  unfold consistent, push. open_world w. intros ->.
  split_ifs; cbn; rewrite length_app; lia.
Qed.

Lemma consistent_drain (w : world) : consistent (drain w).
Proof. reflexivity. Qed.

Lemma consistent_update (w : world) :
  consistent w -> consistent (update w).
Proof.
  unfold consistent, update. open_world w. intros H.
  destruct timeout0; cbn; [|assumption].
  split_ifs; cbn; try reflexivity; assumption.
Qed.

(** ** The bounds are fixed at construction *)

Lemma bounds_new (dirname : string) (now : Z) (cfg : configuration)
    (d : filesystem) :
  let k := self (kju_new dirname now cfg d) in
  minimum k = (interval k / 2)%Q /\ maximum k = (interval k * 2)%Q.
Proof.
  unfold kju_new, recovery, enable.
  destruct (or_default (cfg_recover cfg) true),
           (or_default (cfg_enabled cfg) true); cbn; split; reflexivity.
Qed.


Lemma bounds_drain (w : world) :
  minimum (self (drain w)) = minimum (self w) /\
  maximum (self (drain w)) = maximum (self w).
Proof. split; reflexivity. Qed.

(** What a tick with a pending timer does to the interval, by fill state. *)
Lemma update_underfull (w : world) (t : Q) :
  timeout (self w) = Some t ->
  (length (self w) =? 0)
    || Qlt_bool (inject_Z (length (self w))) (limit (self w)) = true ->
  interval (self (update w)) =
    if Qle_bool (maximum (self w)) (interval (self w))
    then maximum (self w)
    else (interval (self w) + ms (self w))%Q.
Proof.
  unfold update. open_world w. intros -> Hfill. cbn. rewrite Hfill.
  split_ifs; reflexivity.
Qed.

Lemma update_overfull (w : world) (t : Q) :
  timeout (self w) = Some t ->
  (length (self w) =? 0)
    || Qlt_bool (inject_Z (length (self w))) (limit (self w)) = false ->
  interval (self (update w)) =
    if Qle_bool (interval (self w)) (minimum (self w))
    then minimum (self w)
    else (interval (self w) - ms (self w))%Q.
Proof.
  unfold update. open_world w. intros -> Hfill. cbn. rewrite Hfill.
  assert (Hle : Qle_bool limit0 (inject_Z length0) = true).
  { apply orb_false_iff in Hfill. destruct Hfill as [_ Hlt].
    unfold Qlt_bool in Hlt. now apply negb_false_iff in Hlt. }
  rewrite Hle. split_ifs; reflexivity.
Qed.

(** A tick without a pending timer does nothing. *)
Lemma update_disabled (w : world) :
  timeout (self w) = None -> update w = w.
Proof. unfold update. now intros ->. Qed.

Lemma Qle_bool_false (x y : Q) : Qle_bool x y = false -> (y < x)%Q.
Proof.
  intros H. apply Qnot_le_lt. intros Hle.
  apply Qle_bool_iff in Hle. congruence.
Qed.

(** What does hold for every step that is not negative: a tick leaves the
    interval at most one step outside the bounds. *)
Lemma update_interval_slack (w : world) :
  let k := self w in
  (0 <= ms k)%Q -> (minimum k <= maximum k)%Q ->
  (minimum k - ms k <= interval k)%Q /\ (interval k <= maximum k + ms k)%Q ->
  (minimum k - ms k <= interval (self (update w)))%Q /\
  (interval (self (update w)) <= maximum k + ms k)%Q.
Proof.
  intros k Hms Hbounds [Hlo Hhi]. subst k.
  destruct (timeout (self w)) as [t|] eqn:Htimer;
    [|rewrite (update_disabled w Htimer); split; assumption].
  destruct ((length (self w) =? 0)
            || Qlt_bool (inject_Z (length (self w))) (limit (self w)))
    eqn:Hfill.
  - rewrite (update_underfull w t Htimer Hfill).
    destruct (Qle_bool (maximum (self w)) (interval (self w))) eqn:Hmax.
    + split; lra.
    + apply Qle_bool_false in Hmax. split; lra.
  - rewrite (update_overfull w t Htimer Hfill).
    destruct (Qle_bool (interval (self w)) (minimum (self w))) eqn:Hmin.
    + split; lra.
    + apply Qle_bool_false in Hmin. split; lra.
Qed.

(** With interval 1000 and step 100 the ceiling 2000 is reached on the tenth
    empty tick, where the warning fires; it fires again on the eleventh. *)
Lemma ceiling_scenario :
  let w0 := kju_new lib 0 (with_pace 1000 100 defaults) (directory "/srv/kju/lib/" []) in
  interval (self (ticks 9 w0)) = 1900%Q /\
  emitted (ticks 9 w0) = [Enabled] /\
  interval (self (ticks 10 w0)) = 2000%Q /\
  maximum (self (ticks 10 w0)) = 2000%Q /\
  emitted (ticks 10 w0) = [Enabled; WarningMaximum] /\
  interval (self (ticks 11 w0)) = 2000%Q /\
  emitted (ticks 11 w0) = [Enabled; WarningMaximum; WarningMaximum].
Proof. vm_compute. repeat split; reflexivity. Qed.

(** ** Buffer store: push and drain *)

(** C10. [push] appends the items to [buffer] in call order and adds their
    number to [length]; every other field of the instance ([drained],
    [processed], [interval], [minimum], [maximum], [since] and the rest) and
    everything around the instance is left as it was. *)
Theorem push_changes_buffer_and_length_only (items : list value) (w : world) :
  let k := self w in
  let k' := self (push items w) in
  buffer k' = (buffer k ++ items)%list /\
  length k' = length k + Z.of_nat (List.length items) /\
  drained k' = drained k /\
  processed k' = processed k /\
  interval k' = interval k /\
  minimum k' = minimum k /\
  maximum k' = maximum k /\
  since k' = since k /\
  (limit k', ms k', warnings k', enabled k', recover k', path k', name k',
   timeout k')
  = (limit k, ms k, warnings k, enabled k, recover k, path k, name k,
     timeout k) /\
  (emitted (push items w), disk (push items w), console (push items w),
   exit_listeners (push items w), pending (push items w))
  = (emitted w, disk w, console w, exit_listeners w, pending w).
Proof.
  unfold push. open_world w.
  split_ifs; repeat split; reflexivity.
Qed.

Lemma empty_length (w : world) :
  consistent w -> buffer (self w) = [] -> length (self w) = 0.
Proof. unfold consistent. intros -> ->. reflexivity. Qed.

(** C4 as the claim states it fails: on the empty queue a fresh instance
    holds, [drain] publishes a data signal and counts a drain. *)
Lemma drain_of_empty_buffer_is_observable :
  let w := kju_new lib 0 defaults (directory "/srv/kju/lib/" []) in
  buffer (self w) = [] /\
  ~ (emitted (drain w) = emitted w /\
     drained (self (drain w)) = drained (self w) /\
     processed (self (drain w)) = processed (self w) /\
     length (self (drain w)) = length (self w) /\
     buffer (self (drain w)) = buffer (self w)).
Proof.
  split; [reflexivity|].
  intros [Hemitted _]. vm_compute in Hemitted. discriminate Hemitted.
Qed.

(** C4, amended. [drain] itself has no guard: on an empty buffer it publishes
    one data signal with the empty batch and the count 0 and adds one to
    [drained], while [processed], [length] and [buffer] keep their values.
    The guard is at its callers: on an empty buffer neither a tick ([update])
    nor [disable] publishes a data signal or counts a drain. *)
Theorem drain_on_empty_buffer (w : world)
    (Hcons : consistent w) (Hempty : buffer (self w) = []) :
  (emitted (drain w) = (emitted w ++ [Data [] 0])%list /\
   drained (self (drain w)) = drained (self w) + 1 /\
   processed (self (drain w)) = processed (self w) /\
   length (self (drain w)) = length (self w) /\
   buffer (self (drain w)) = buffer (self w)) /\
  (filter is_data (emitted (update w)) = filter is_data (emitted w) /\
   drained (self (update w)) = drained (self w)) /\
  (forall nocommit : bool,
     filter is_data (emitted (disable nocommit w)) = filter is_data (emitted w) /\
     drained (self (disable nocommit w)) = drained (self w)).
Proof.
  pose proof (empty_length w Hcons Hempty) as Hlen.
  unfold drain, update, disable. open_world w. subst.
  split; [|split].
  - repeat split. f_equal. lia.
  - destruct timeout0; cbn; [|split; reflexivity].
    split_ifs; rewrite ?filter_app; cbn; rewrite ?app_nil_r;
      split; reflexivity.
  - intros nocommit. destruct timeout0; cbn; [|split; reflexivity].
    rewrite filter_app. cbn. rewrite app_nil_r. split; reflexivity.
Qed.

(** The theorem at the empty queue of a fresh instance. *)
Lemma drain_on_empty_buffer_witness :
  let w := kju_new lib 0 defaults (directory "/srv/kju/lib/" []) in
  consistent w /\ buffer (self w) = [] /\
  emitted (drain w) = (emitted w ++ [Data [] 0])%list /\
  drained (self (drain w)) = drained (self w) + 1 /\
  filter is_data (emitted (update w)) = filter is_data (emitted w).
Proof.
  cbv zeta.
  assert (Hcons : consistent
            (kju_new lib 0 defaults (directory "/srv/kju/lib/" [])))
    by reflexivity.
  assert (Hempty : buffer (self
            (kju_new lib 0 defaults (directory "/srv/kju/lib/" []))) = [])
    by reflexivity.
  destruct (drain_on_empty_buffer _ Hcons Hempty)
    as [[Hsignal [Hcount _]] [[Htick _] _]].
  repeat split; assumption.
Defined.

(** C5 on the code: with [limit] 3, after the pushes of a, b and c the length
    has reached the limit, yet nothing was drained or asked for: no data
    signal, [drained] is 0, the three items are still in the buffer, the
    timer and the pending callbacks are those of the fresh instance. *)
Theorem push_at_limit_triggers_no_drain :
  let w0 := kju_new lib 0 (with_limit 3 defaults) (directory "/srv/kju/lib/" []) in
  let w := push [VString "c"] (push [VString "b"] (push [VString "a"] w0)) in
  Qle_bool (limit (self w)) (inject_Z (length (self w))) = true /\
  buffer (self w) = [VString "a"; VString "b"; VString "c"] /\
  drained (self w) = 0 /\
  filter is_data (emitted w) = [] /\
  emitted w = emitted w0 /\
  timeout (self w) = timeout (self w0) /\
  pending w = pending w0.
Proof. vm_compute. repeat split; reflexivity. Qed.

(** The drain the pushes did not ask for happens at the next tick. *)
Lemma tick_after_pushes :
  let w0 := kju_new lib 0 (with_limit 3 defaults) (directory "/srv/kju/lib/" []) in
  let w := update (push [VString "a"; VString "b"; VString "c"] w0) in
  emitted w = [Enabled; Data [VString "a"; VString "b"; VString "c"] 3] /\
  drained (self w) = 1 /\ processed (self w) = 3 /\
  buffer (self w) = [] /\ length (self w) = 0.
Proof. vm_compute. repeat split; reflexivity. Qed.

(** ** Interval controller *)

(** C6 on the code: with baseline 1000 and step 300 the bounds are 500 and
    2000, and the fourth tick on an empty buffer sets the interval to 2200,
    above [maximum]. *)
Theorem interval_exceeds_maximum :
  let w0 := kju_new lib 0 (with_pace 1000 300 defaults) (directory "/srv/kju/lib/" []) in
  let w := ticks 4 w0 in
  minimum (self w0) == 500 /\ maximum (self w0) == 2000 /\
  minimum (self w) = minimum (self w0) /\ maximum (self w) = maximum (self w0) /\
  interval (self w) == 2200 /\
  (maximum (self w) < interval (self w))%Q.
Proof. vm_compute. repeat split; reflexivity. Qed.

(** The same below: with baseline 1000 and step 300, two ticks on a full
    buffer set the interval to 400, under [minimum]. *)
Lemma interval_falls_below_minimum :
  let w0 := kju_new lib 0 (with_limit 1 (with_pace 1000 300 defaults))
                    (directory "/srv/kju/lib/" []) in
  let w := update (push [VNull] (update (push [VNull] w0))) in
  minimum (self w) == 500 /\ interval (self w) == 400 /\
  (interval (self w) < minimum (self w))%Q.
Proof. vm_compute. repeat split; reflexivity. Qed.

(** C7 on the code: with baseline 1000 and step 300, the interval is 1900
    after three empty ticks; the fourth, still underfull, does not clamp
    1900 + 300 at the maximum 2000 but stores 2200, and emits no warning. *)
Theorem underfull_tick_is_not_clamped :
  let w0 := kju_new lib 0 (with_pace 1000 300 defaults) (directory "/srv/kju/lib/" []) in
  let w3 := ticks 3 w0 in
  let w4 := update w3 in
  length (self w3) = 0 /\ warnings (self w3) = true /\
  interval (self w3) == 1900 /\ maximum (self w3) == 2000 /\
  Qmin (interval (self w3) + ms (self w3)) (maximum (self w3)) == 2000 /\
  interval (self w4) == 2200 /\
  emitted w4 = emitted w3 /\
  filter (fun e => match e with WarningMaximum => true | _ => false end)
         (emitted w4) = [].
Proof. vm_compute. repeat split; reflexivity. Qed.

(** ** Metrics *)

Lemma drains_per_minute_is_NaN (now : Z) (w : world) :
  key_drains_per_minute (metrics now w) = "NaN".
Proof. reflexivity. Qed.

Lemma items_per_minute_ignores_uptime (now now' : Z) (w : world) :
  key_items_per_minute (metrics now w) = key_items_per_minute (metrics now' w).
Proof. reflexivity. Qed.

Lemma metrics_counters (now : Z) (w : world) :
  let m := metrics now w in
  key_drain m = drained (self w) /\
  key_processed m = processed (self w) /\
  key_interval m = interval (self w) /\
  key_uptime m = (if since (self w) =? 0 then 0 else now - since (self w)).
Proof. repeat split; reflexivity. Qed.

(** C9 on the code: one minute after construction, with one drain of three
    items behind it, the snapshot has the two counters, the uptime and the
    interval, but its rates are no rates: items per minute is 3 / 60000
    printed with two decimals, drains per minute is NaN. *)
Theorem metrics_rates_are_not_rates :
  let w0 := kju_new lib 1000 defaults (directory "/srv/kju/lib/" []) in
  let w := update (push [VString "a"; VString "b"; VString "c"] w0) in
  let m := metrics 61000 w in
  key_drain m = 1 /\ key_processed m = 3 /\ key_uptime m = 60000 /\
  key_interval m = interval (self w) /\
  key_items_per_minute m = "0.00" /\
  key_drains_per_minute m = "NaN".
Proof. vm_compute. repeat split; reflexivity. Qed.

(** ** Persistence *)

Lemma backup_changes_nothing_but_the_console (w : world) :
  let w' := fst (backup w) in
  disk w' = disk w /\ self w' = self w /\ emitted w' = emitted w /\
  pending w' = pending w.
Proof.
  unfold backup.
  destruct (exists_ (disk w) (path (self w))); cbn;
    [|repeat split; reflexivity].
  destruct (readdir (disk w) (path (self w))); repeat split; reflexivity.
Qed.

Lemma backup_without_directory (w : world) :
  exists_ (disk w) (path (self w)) = false -> backup w = (w, Normal).
Proof. unfold backup. now intros ->. Qed.

Lemma push_disk (items : list value) (w : world) :
  disk (push items w) = disk w.
Proof. unfold push. split_ifs; reflexivity. Qed.

Section RecoveryFacts.

Variable JSON_parse : string -> option value.
Variable array_like : list (string * value) -> list value.

Local Abbreviation callback_of := (readFile_cb JSON_parse array_like).
Local Abbreviation run := (run_callback JSON_parse array_like).
Local Abbreviation loop := (event_loop JSON_parse array_like).

(** Every path through the callback ends in the call of [done]. *)
Lemma readFile_cb_throws (file : string) (w : world) :
  snd (callback_of file w) = Throws (ReferenceError "done").
Proof.
  unfold readFile_cb.
  destruct (readFile (disk w) (path (self w) ++ file)); reflexivity.
Qed.

Lemma readFile_cb_array (file text : string) (items : list value)
    (w : world) :
  readFile (disk w) (path (self w) ++ file) = Ok text ->
  JSON_parse text = Some (VArray items) ->
  fst (callback_of file w) = push items w.
Proof. unfold readFile_cb. now intros -> ->. Qed.

Lemma readFile_cb_corrupted (file text : string) (w : world) :
  readFile (disk w) (path (self w) ++ file) = Ok text ->
  JSON_parse text = None ->
  fst (callback_of file w) = emit (corrupted file) w.
Proof. unfold readFile_cb. now intros -> ->. Qed.

(** A failed read leaves no trace: [done()] throws before [emit] runs. *)
Lemma readFile_cb_unreadable (file err : string) (w : world) :
  readFile (disk w) (path (self w) ++ file) = Err err ->
  fst (callback_of file w) = w.
Proof. unfold readFile_cb. now intros ->. Qed.

(** Nothing in the recovery writes or removes a file. *)
Lemma readFile_cb_disk (file : string) (w : world) :
  disk (fst (callback_of file w)) = disk w.
Proof.
  unfold readFile_cb.
  destruct (readFile (disk w) (path (self w) ++ file)); [|reflexivity].
  destruct (JSON_parse a) as [todo|]; [|reflexivity].
  destruct (arguments_of array_like todo); cbn;
    [apply push_disk|reflexivity].
Qed.

Lemma run_callback_disk (c : callback) (w : world) :
  disk (fst (run c w)) = disk w.
Proof.
  unfold run_callback. destruct c.
  - destruct (negb _); reflexivity.
  - destruct (readdir _ _); reflexivity.
  - apply readFile_cb_disk.
  - destruct (negb _); reflexivity.
Qed.

Lemma event_loop_disk (handler : bool) (fuel : nat) (w : world) :
  disk (fst (loop handler fuel w)) = disk w.
Proof.
  revert w. induction fuel as [|fuel IH]; intros w; [reflexivity|].
  cbn. destruct (pending w) as [|c rest]; [reflexivity|].
  pose proof (run_callback_disk c (set_pending rest w)) as Hstep.
  destruct (run c (set_pending rest w)) as [w' [|e]]; cbn in Hstep.
  - rewrite IH. exact Hstep.
  - destruct handler; [|exact Hstep].
    specialize (IH w').
    destruct (loop true fuel w') as [w'' es].
    cbn in *. rewrite IH. exact Hstep.
Qed.

End RecoveryFacts.

(** C2 on the code: the directory exists and the buffer holds two items, yet
    [backup] only logs a line and lists the directory: the file system after
    it is the one before it, still without any file. *)
Theorem backup_writes_no_file :
  let w0 := kju_new lib 0 data_dir (directory "/data/" []) in
  let w := push [VString "x"; VString "y"] w0 in
  exists_ (disk w) (path (self w)) = true /\
  buffer (self w) = [VString "x"; VString "y"] /\
  backup w = (console_log "backing uppa" w, Normal) /\
  disk (fst (backup w)) = directory "/data/" [] /\
  readdir (disk (fst (backup w))) "/data/" = Ok [].
Proof. vm_compute. repeat split; reflexivity. Qed.

(** C1 on the code: a queue holding x and y is backed up, then a fresh queue
    is built with recovery on the same directory; once its event loop has
    nothing left to run, its buffer is empty. *)
Theorem backup_then_recovery_loses_the_buffer (handler : bool) :
  let old := push [VString "x"; VString "y"]
                  (fst (start handler 0 data_dir (directory "/data/" []))) in
  let fresh := start handler 1 data_dir (disk (fst (backup old))) in
  buffer (self old) = [VString "x"; VString "y"] /\
  recover (self (fst fresh)) = true /\
  pending (fst fresh) = [] /\ snd fresh = [] /\
  buffer (self (fst fresh)) = [] /\ length (self (fst fresh)) = 0.
Proof. destruct handler; vm_compute; repeat split; reflexivity. Qed.

(** C3 on the code: with the one file batch.kju holding the array of x and y,
    recovery fills the buffer with x and y and sets [length] to 2, but the
    file is still there afterwards, and the callback ended in a
    ReferenceError. *)
Theorem recovered_file_is_not_deleted (handler : bool) :
  let d := directory "/data/" [("batch.kju", File (json_strings ["x"; "y"]))] in
  let r := start handler 0 data_dir d in
  buffer (self (fst r)) = [VString "x"; VString "y"] /\
  length (self (fst r)) = 2 /\
  pending (fst r) = [] /\
  exists_ (disk (fst r)) "/data/batch.kju" = true /\
  disk (fst r) = d /\
  snd r = [ReferenceError "done"].
Proof. destruct handler; vm_compute; repeat split; reflexivity. Qed.

(** The file recovered once is recovered again by the next instance. *)
Lemma recovered_twice :
  let d := directory "/data/" [("batch.kju", File (json_strings ["x"; "y"]))] in
  let first := fst (start true 0 data_dir d) in
  let second := fst (start true 1 data_dir (disk first)) in
  buffer (self first) = [VString "x"; VString "y"] /\
  buffer (self second) = [VString "x"; VString "y"].
Proof. vm_compute. split; reflexivity. Qed.

(** C8 on the code.  A file that cannot be read: no error.recover signal is
    emitted, and a ReferenceError leaves the callback.  A corrupted file
    followed by a good one, in a process without a handler for uncaught
    exceptions: the signal for the corrupted file is emitted and the file
    stays, but the ReferenceError ends the process with the good file unread
    and the buffer empty. *)
Theorem failed_recovery_throws :
  (forall handler : bool,
     let d := directory "/data/" [("a.kju", Unreadable "EACCES, permission denied")] in
     let r := start handler 0 data_dir d in
     filter is_recover_error (emitted (fst r)) = [] /\
     emitted (fst r) = [Enabled] /\
     snd r = [ReferenceError "done"]) /\
  (let d := directory "/data/" [("a.kju", File "{oops");
                                ("b.kju", File (json_strings ["x"]))] in
   let r := start false 0 data_dir d in
   emitted (fst r)
   = [Enabled; ErrorRecover "corrupted file, unable to parse contents of a.kju"] /\
   exists_ (disk (fst r)) "/data/a.kju" = true /\
   snd r = [ReferenceError "done"] /\
   pending (fst r) = [ReadFile "b.kju"] /\
   buffer (self (fst r)) = []).
Proof.
  split.
  - intros handler. destruct handler; vm_compute; repeat split; reflexivity.
  - vm_compute. repeat split; reflexivity.
Qed.

(** Where the host does handle uncaught exceptions, the files after a
    corrupted one are still recovered. *)
Lemma corrupted_file_with_handler :
  let d := directory "/data/" [("a.kju", File "{oops");
                               ("b.kju", File (json_strings ["x"]))] in
  let r := start true 0 data_dir d in
  emitted (fst r)
  = [Enabled; ErrorRecover "corrupted file, unable to parse contents of a.kju"] /\
  snd r = [ReferenceError "done"; ReferenceError "done"] /\
  pending (fst r) = [] /\
  buffer (self (fst r)) = [VString "x"] /\
  disk (fst r) = d.
Proof. vm_compute. repeat split; reflexivity. Qed.

(** * Runs: what every sequence of calls and completions keeps *)

(** Case analysis on every scrutinee of the goal, innermost first. *)
Ltac break_matches :=
  repeat match goal with
         | |- context [match ?x with _ => _ end] =>
           lazymatch x with
           | context [match _ with _ => _ end] => fail
           | _ => destruct x eqn:?; cbn in *
           end
         end.

Ltac unfold_calls :=
  unfold apply_call, arrived, recovered_items, run_callback, readFile_cb,
    corrupted, done, andthen in *;
  unfold push, drain, update, enable, disable in *;
  unfold later, emit, on_exit, with_self, set_timeout, set_interval,
    set_pending in *;
  cbn in *.

Section RunFacts.

Variable JSON_parse : string -> option value.
Variable array_like : list (string * value) -> list value.

Local Abbreviation step := (apply_call JSON_parse array_like).
Local Abbreviation run := (calls JSON_parse array_like).
Local Abbreviation came := (arrived JSON_parse array_like).
Local Abbreviation all_came := (arrivals JSON_parse array_like).

Lemma step_conserves (c : call) (w : world) :
  processed (self (step c w)) + length (self (step c w))
  = processed (self w) + length (self w)
    + Z.of_nat (List.length (came c w)).
Proof.
  destruct c; unfold_calls; open_world w; break_matches;
    rewrite ?Z.add_0_r; try reflexivity; try lia.
Qed.

Lemma step_keeps_order (c : call) (w : world) :
  (published (step c w) ++ buffer (self (step c w)))%list
  = (published w ++ buffer (self w) ++ came c w)%list.
Proof.
  unfold published.
  destruct c; unfold_calls; open_world w; break_matches;
    rewrite ?flat_map_app; cbn; rewrite ?app_nil_r, <- ?app_assoc;
    reflexivity.
Qed.

Lemma consistent_step (c : call) (w : world) :
  consistent w -> consistent (step c w).
Proof.
  unfold consistent.
  destruct c; unfold_calls; open_world w; intros H; break_matches;
    rewrite ?length_app, ?Nat2Z.inj_add; try reflexivity; try lia.
Qed.

Lemma counted_step (c : call) (w : world) :
  consistent w -> Forall counted (emitted w) ->
  Forall counted (emitted (step c w)).
Proof.
  unfold consistent.
  destruct c; unfold_calls; open_world w; intros Hlen H; break_matches;
    rewrite ?Forall_app; repeat split;
    try assumption; repeat constructor; try assumption; cbn; lia.
Qed.

Lemma armed_step (c : call) (w : world) :
  armed w -> armed (step c w).
Proof.
  unfold armed.
  destruct c; unfold_calls; open_world w; intros H; break_matches;
    try assumption; try (right; reflexivity); try (left; reflexivity).
Qed.

Lemma drained_step (c : call) (w : world) :
  drained (self w) = Z.of_nat (List.length (filter is_data (emitted w))) ->
  drained (self (step c w))
  = Z.of_nat (List.length (filter is_data (emitted (step c w)))).
Proof.
  destruct c; unfold_calls; open_world w; intros H; break_matches;
    rewrite ?filter_app, ?length_app; cbn; rewrite ?Nat.add_0_r;
    try assumption; lia.
Qed.

Lemma sound_step (c : call) (w : world) : sound w -> sound (step c w).
Proof.
  intros (Hlen & Hcount & Harmed & Hdrained). repeat split.
  - now apply consistent_step.
  - now apply counted_step.
  - now apply armed_step.
  - now apply drained_step.
Qed.

Lemma sound_run (cs : list call) (w : world) : sound w -> sound (run cs w).
Proof.
  revert w. induction cs as [|c cs IH]; intros w H; [exact H|].
  cbn. apply IH. now apply sound_step.
Qed.

Lemma sound_new (dirname : string) (now : Z) (cfg : configuration)
    (d : filesystem) :
  sound (kju_new dirname now cfg d).
Proof.
  unfold sound, consistent, armed, kju_new, recovery, enable.
  destruct (or_default (cfg_recover cfg) true),
           (or_default (cfg_enabled cfg) true); cbn;
    repeat split; try reflexivity; repeat constructor;
    try (right; reflexivity); left; reflexivity.
Qed.

(** X1.  No item is lost or counted twice: along every run, the items
    processed plus the items waiting grow by exactly the items that
    arrived, pushed or recovered. *)
Theorem run_conserves_items (cs : list call) (w : world) :
  processed (self (run cs w)) + length (self (run cs w))
  = processed (self w) + length (self w)
    + Z.of_nat (List.length (all_came cs w)).
Proof.
  revert w. induction cs as [|c cs IH]; intros w; cbn; [lia|].
  rewrite IH, step_conserves, length_app. lia.
Qed.

(** X2.  Order is kept and nothing is published twice: along every run, the
    batches published so far followed by the buffer are the earlier batches,
    the earlier buffer and the arrivals, in that order. *)
Theorem run_keeps_order (cs : list call) (w : world) :
  (published (run cs w) ++ buffer (self (run cs w)))%list
  = (published w ++ buffer (self w) ++ all_came cs w)%list.
Proof.
  revert w. induction cs as [|c cs IH]; intros w; cbn.
  - now rewrite app_nil_r.
  - rewrite IH, app_assoc, step_keeps_order, <- !app_assoc. reflexivity.
Qed.

(** X3.  From construction on, whatever is called and whatever completes,
    [length] is the number of items in [buffer]. *)
Theorem length_is_buffer_size (dirname : string) (now : Z)
    (cfg : configuration) (d : filesystem) (cs : list call) :
  let w := run cs (kju_new dirname now cfg d) in
  length (self w) = Z.of_nat (List.length (buffer (self w))).
Proof. apply (sound_run cs _ (sound_new dirname now cfg d)). Qed.

(** X4.  From construction on, every data signal carries the size of its
    batch as its count. *)
Theorem data_signals_are_counted (dirname : string) (now : Z)
    (cfg : configuration) (d : filesystem) (cs : list call) :
  Forall (fun e => match e with
                   | Data items count => count = Z.of_nat (List.length items)
                   | _ => True
                   end)
         (emitted (run cs (kju_new dirname now cfg d))).
Proof. apply (sound_run cs _ (sound_new dirname now cfg d)). Qed.

(** X5.  From construction on, [drained] is the number of data signals
    emitted. *)
Theorem drained_counts_data_signals (dirname : string) (now : Z)
    (cfg : configuration) (d : filesystem) (cs : list call) :
  let w := run cs (kju_new dirname now cfg d) in
  drained (self w) = Z.of_nat (List.length (filter is_data (emitted w))).
Proof. apply (sound_run cs _ (sound_new dirname now cfg d)). Qed.

(** X6.  From construction on, a pending timer always waits for the current
    interval: every change of the interval comes with a new timer. *)
Theorem timer_waits_for_interval (dirname : string) (now : Z)
    (cfg : configuration) (d : filesystem) (cs : list call) :
  let w := run cs (kju_new dirname now cfg d) in
  timeout (self w) = None \/ timeout (self w) = Some (interval (self w)).
Proof. apply (sound_run cs _ (sound_new dirname now cfg d)). Qed.

Lemma listeners_step (c : call) (w : world) :
  (exit_listeners w <= exit_listeners (step c w))%nat.
Proof.
  destruct c; unfold_calls; open_world w; break_matches; lia.
Qed.

(** X7.  No call and no completion ever removes a listener of the process's
    exit event: their number never goes down, [disable] included. *)
Theorem exit_listeners_never_removed (cs : list call) (w : world) :
  (exit_listeners w <= exit_listeners (run cs w))%nat.
Proof.
  revert w. induction cs as [|c cs IH]; intros w; cbn; [lia|].
  etransitivity; [apply (listeners_step c)|apply IH].
Qed.

Lemma warnings_step (c : call) (w : world) :
  warnings (self w) = false ->
  warnings (self (step c w)) = false /\
  filter is_warning (emitted (step c w)) = filter is_warning (emitted w).
Proof.
  destruct c; unfold_calls; open_world w; intros H; subst; break_matches;
    rewrite ?filter_app; cbn; rewrite ?app_nil_r; split; reflexivity.
Qed.

(** X8.  With the option [warnings] off, no run ever emits warning.maximum
    or warning.minimum. *)
Theorem no_warnings_when_switched_off (cs : list call) (w : world) :
  warnings (self w) = false ->
  filter is_warning (emitted (run cs w)) = filter is_warning (emitted w).
Proof.
  revert w. induction cs as [|c cs IH]; intros w H; cbn; [reflexivity|].
  destruct (warnings_step c w H) as [Hoff Hsame].
  rewrite (IH _ Hoff). exact Hsame.
Qed.






End RunFacts.


Lemma no_warnings_when_switched_off_witness :
  let quiet := mk_configuration None None (Some 200%Q) (Some false) None None
                                None None in
  let w := kju_new lib 0 quiet (directory "/srv/kju/lib/" []) in
  warnings (self w) = false /\
  filter is_warning
    (emitted (calls parse_strings no_objects
                    [Update; Update; Push [VNull]; Update; Complete] w))
  = filter is_warning (emitted w).
Proof.
  cbv zeta. split; [reflexivity|].
  apply (no_warnings_when_switched_off parse_strings no_objects).
  reflexivity.
Defined.


(** * Scheduler *)

Lemma enable_running (w : world) :
  timeout (self w) <> None -> enable w = w.
Proof. unfold enable. destruct (timeout (self w)); [reflexivity|congruence]. Qed.

Lemma enable_starts (w : world) : timeout (self (enable w)) <> None.
Proof.
  unfold enable. destruct (timeout (self w)) eqn:H; cbn; congruence.
Qed.

Lemma disable_stopped (nocommit : bool) (w : world) :
  timeout (self w) = None -> disable nocommit w = w.
Proof. unfold disable. now intros ->. Qed.

Lemma disable_stops (nocommit : bool) (w : world) :
  timeout (self (disable nocommit w)) = None.
Proof.
  unfold disable. destruct (timeout (self w)) eqn:H; [reflexivity|exact H].
Qed.

(** X10.  [enable] and [disable] are idempotent: a second call in a row
    changes nothing, emits no second signal and adds no second listener. *)
Theorem enable_and_disable_are_idempotent (w : world) (n1 n2 : bool) :
  enable (enable w) = enable w /\
  disable n2 (disable n1 w) = disable n1 w.
Proof.
  split.
  - apply enable_running, enable_starts.
  - apply disable_stopped, disable_stops.
Qed.

Lemma disable_keeps_listeners (nocommit : bool) (w : world) :
  exit_listeners (disable nocommit w) = exit_listeners w.
Proof.
  unfold disable. destruct (timeout (self w)); [|reflexivity].
  destruct (negb (length (self w) =? 0) && negb nocommit); reflexivity.
Qed.

Lemma enable_adds_listener (w : world) :
  timeout (self w) = None ->
  exit_listeners (enable w) = S (exit_listeners w).
Proof. unfold enable. now intros ->. Qed.

Lemma cycle_once (nocommit : bool) (w : world) :
  timeout (self w) = None ->
  timeout (self (disable nocommit (enable w))) = None /\
  exit_listeners (disable nocommit (enable w)) = S (exit_listeners w).
Proof.
  intros H. split; [apply disable_stops|].
  rewrite disable_keeps_listeners. now apply enable_adds_listener.
Qed.

(** X11.  Every enable / disable cycle leaves one more exit listener behind:
    [disable] hands [removeListener] a new bound function, which was never
    registered.  After [n] cycles of a stopped queue there are [n] more. *)
Theorem cycles_leave_exit_listeners (n : nat) (nocommit : bool) (w : world) :
  timeout (self w) = None ->
  exit_listeners (cycles n nocommit w) = (exit_listeners w + n)%nat /\
  timeout (self (cycles n nocommit w)) = None.
Proof.
  revert w. induction n as [|n IH]; intros w H; cbn.
  - split; [lia|exact H].
  - destruct (cycle_once nocommit w H) as [Hnone Hone].
    destruct (IH _ Hnone) as [-> ->]. rewrite Hone. split; [lia|reflexivity].
Qed.

Lemma cycles_leave_exit_listeners_witness :
  let stopped := mk_configuration None None None None (Some false) None None
                                  None in
  let w := kju_new lib 0 stopped (directory "/srv/kju/lib/" []) in
  exit_listeners (cycles 3 false w) = (exit_listeners w + 3)%nat /\
  timeout (self (cycles 3 false w)) = None.
Proof.
  cbv zeta. apply cycles_leave_exit_listeners. reflexivity.
Defined.

(** X12.  [disable] of a running queue with items: without [nocommit] the
    whole buffer is published as one last batch before the disabled signal;
    with [nocommit] only the disabled signal is emitted and the items stay
    in the buffer.  Either way the timer is gone. *)
Theorem disable_flushes_unless_nocommit (w : world) (t : Q) :
  timeout (self w) = Some t ->
  length (self w) <> 0 ->
  (emitted (disable false w)
   = (emitted w ++ [Data (buffer (self w)) (length (self w)); Disabled])%list /\
   buffer (self (disable false w)) = [] /\
   length (self (disable false w)) = 0 /\
   timeout (self (disable false w)) = None) /\
  (emitted (disable true w) = (emitted w ++ [Disabled])%list /\
   buffer (self (disable true w)) = buffer (self w) /\
   length (self (disable true w)) = length (self w) /\
   timeout (self (disable true w)) = None).
Proof.
  unfold disable. open_world w. intros -> Hlen.
  apply Z.eqb_neq in Hlen. rewrite Hlen. cbn.
  rewrite <- app_assoc. repeat split; reflexivity.
Qed.

Lemma disable_flushes_unless_nocommit_witness :
  let w := push [VString "a"; VString "b"]
                (kju_new lib 0 defaults (directory "/srv/kju/lib/" [])) in
  emitted (disable false w)
  = [Enabled; Data [VString "a"; VString "b"] 2; Disabled] /\
  emitted (disable true w) = [Enabled; Disabled] /\
  buffer (self (disable true w)) = [VString "a"; VString "b"].
Proof.
  cbv zeta.
  assert (Htimer : timeout (self (push [VString "a"; VString "b"]
            (kju_new lib 0 defaults (directory "/srv/kju/lib/" []))))
          = Some 15000%Q) by reflexivity.
  assert (Hlen : length (self (push [VString "a"; VString "b"]
            (kju_new lib 0 defaults (directory "/srv/kju/lib/" [])))) <> 0)
    by (cbn; lia).
  destruct (disable_flushes_unless_nocommit _ _ Htimer Hlen)
    as [[Hflush _] [Hkeep [Hbuffer _]]].
  repeat split; assumption.
Defined.

(** X13.  A tick of a running queue leaves the buffer empty: what was in it
    is published as one batch with its length, nothing is published where
    there was nothing, and the next tick is scheduled after the interval
    the tick has set. *)
Theorem tick_publishes_the_buffer (w : world) (t : Q) :
  consistent w ->
  timeout (self w) = Some t ->
  buffer (self (update w)) = [] /\
  length (self (update w)) = 0 /\
  filter is_data (emitted (update w))
  = (filter is_data (emitted w)
     ++ (if length (self w) =? 0 then []
         else [Data (buffer (self w)) (length (self w))]))%list /\
  timeout (self (update w)) = Some (interval (self (update w))).
Proof.
  unfold consistent, update. open_world w. intros Hlen ->. cbn.
  destruct (length0 =? 0) eqn:Hzero; cbn.
  - apply Z.eqb_eq in Hzero.
    assert (buffer0 = []) by (destruct buffer0; [reflexivity|cbn in Hlen; lia]).
    subst. split_ifs; rewrite ?filter_app; cbn; rewrite ?app_nil_r;
      repeat split; reflexivity.
  - break_matches; try (rewrite Hzero in *; discriminate);
      rewrite ?filter_app; cbn; rewrite ?app_nil_r;
      repeat split; reflexivity.
Qed.

Lemma tick_publishes_the_buffer_witness :
  let w := push [VString "a"; VString "b"]
                (kju_new lib 0 defaults (directory "/srv/kju/lib/" [])) in
  buffer (self (update w)) = [] /\
  filter is_data (emitted (update w)) = [Data [VString "a"; VString "b"] 2].
Proof.
  cbv zeta.
  assert (Hcons : consistent (push [VString "a"; VString "b"]
            (kju_new lib 0 defaults (directory "/srv/kju/lib/" []))))
    by reflexivity.
  assert (Htimer : timeout (self (push [VString "a"; VString "b"]
            (kju_new lib 0 defaults (directory "/srv/kju/lib/" []))))
          = Some 15000%Q) by reflexivity.
  destruct (tick_publishes_the_buffer _ _ Hcons Htimer)
    as (Hbuffer & _ & Hdata & _).
  split; [exact Hbuffer|exact Hdata].
Defined.

(** ** Sustained underfill *)

(** A tick of a running, empty queue: what it keeps and how it sets the
    interval. *)
Lemma update_empty (w : world) (t : Q) :
  length (self w) = 0 ->
  timeout (self w) = Some t ->
  length (self (update w)) = 0 /\
  timeout (self (update w)) = Some (interval (self (update w))) /\
  ms (self (update w)) = ms (self w) /\
  maximum (self (update w)) = maximum (self w) /\
  warnings (self (update w)) = warnings (self w) /\
  interval (self (update w))
  = (if Qle_bool (maximum (self w)) (interval (self w))
     then maximum (self w)
     else (interval (self w) + ms (self w))%Q) /\
  filter is_maximum_warning (emitted (update w))
  = (filter is_maximum_warning (emitted w)
     ++ (if warnings (self w)
            && Qeq_bool (if Qle_bool (maximum (self w)) (interval (self w))
                         then maximum (self w)
                         else (interval (self w) + ms (self w))%Q)
                        (maximum (self w))
         then [WarningMaximum] else []))%list.
Proof.
  unfold update. open_world w. intros -> ->. cbn.
  split_ifs; rewrite ?filter_app; cbn; rewrite ?app_nil_r;
    repeat split; reflexivity.
Qed.




Lemma ticks_stay (m : nat) (w : world) (t : Q) :
  length (self w) = 0 ->
  timeout (self w) = Some t ->
  (maximum (self w) <= interval (self w))%Q ->
  interval (self (ticks (S m) w)) = maximum (self w) /\
  filter is_maximum_warning (emitted (ticks (S m) w))
  = (filter is_maximum_warning (emitted w)
     ++ (if warnings (self w) then repeat WarningMaximum (S m) else []))%list.
Proof.
  revert w t. induction m as [|m IH]; intros w t Hlen Htimer Habove;
    destruct (update_empty w t Hlen Htimer)
      as (Hlen' & Htimer' & Hms' & Hmax' & Hwarn' & Hi' & Hsignal);
    apply Qle_bool_iff in Habove; rewrite Habove in Hi', Hsignal;
    assert (Hsame : Qeq_bool (maximum (self w)) (maximum (self w)) = true)
      by (apply Qeq_bool_iff; reflexivity);
    rewrite Hsame, andb_true_r in Hsignal.
  - cbn [ticks]. split; [exact Hi'|].
    rewrite Hsignal. destruct (warnings (self w)); reflexivity.
  - change (ticks (S (S m)) w) with (ticks (S m) (update w)).
    destruct (IH (update w) _ Hlen' Htimer') as [Hstay Hwarns].
    + rewrite Hmax', Hi'. lra.
    + rewrite Hstay, Hwarns, Hsignal, Hmax', Hwarn'. split; [reflexivity|].
      rewrite <- app_assoc. destruct (warnings (self w)); reflexivity.
Qed.



(** X15.  The ceiling warning is continuous: on a running, empty queue
    whose interval has reached the maximum, each further tick keeps the
    interval at the maximum and, with warnings on, emits one more
    warning.maximum. *)
Theorem ceiling_warns_on_every_tick (m : nat) (w : world) (t : Q) :
  length (self w) = 0 ->
  timeout (self w) = Some t ->
  (maximum (self w) <= interval (self w))%Q ->
  interval (self (ticks (S m) w)) = maximum (self w) /\
  filter is_maximum_warning (emitted (ticks (S m) w))
  = (filter is_maximum_warning (emitted w)
     ++ (if warnings (self w) then repeat WarningMaximum (S m) else []))%list.
Proof. apply ticks_stay. Qed.

Lemma ceiling_warns_on_every_tick_witness :
  let w := ticks 10 (kju_new lib 0 (with_pace 1000 100 defaults)
                             (directory "/srv/kju/lib/" [])) in
  interval (self (ticks 3 w)) = maximum (self w) /\
  filter is_maximum_warning (emitted (ticks 3 w))
  = [WarningMaximum; WarningMaximum; WarningMaximum; WarningMaximum].
Proof.
  cbv zeta.
  assert (Hlen : length (self (ticks 10 (kju_new lib 0
            (with_pace 1000 100 defaults) (directory "/srv/kju/lib/" []))))
          = 0) by reflexivity.
  assert (Htimer : timeout (self (ticks 10 (kju_new lib 0
            (with_pace 1000 100 defaults) (directory "/srv/kju/lib/" []))))
          = Some 2000%Q) by reflexivity.
  assert (Hmax : (maximum (self (ticks 10 (kju_new lib 0
            (with_pace 1000 100 defaults) (directory "/srv/kju/lib/" []))))
          <= interval (self (ticks 10 (kju_new lib 0
            (with_pace 1000 100 defaults) (directory "/srv/kju/lib/" [])))))%Q)
    by (vm_compute; discriminate).
  exact (ceiling_warns_on_every_tick 2 _ _ Hlen Htimer Hmax).
Defined.

(** * The recovery-file filter *)

Lemma length_append (s t : string) :
  String.length (s ++ t) = (String.length s + String.length t)%nat.
Proof. induction s as [|c s IH]; cbn; [reflexivity|now rewrite IH]. Qed.

Lemma substring_past (s t : string) (n : nat) :
  substring (String.length s) n (s ++ t) = substring 0 n t.
Proof. induction s as [|c s IH]; cbn; [reflexivity|exact IH]. Qed.

Lemma substring_split (s : string) (k : nat) :
  (k <= String.length s)%nat ->
  s = substring 0 k s ++ substring k (String.length s - k) s.
Proof.
  revert k. induction s as [|c s IH]; intros k Hk.
  - destruct k; reflexivity.
  - destruct k as [|k]; cbn.
    + f_equal. clear. induction s as [|d s IH]; cbn; [reflexivity|].
      now rewrite <- IH.
    + cbn in Hk. f_equal. apply IH. lia.
Qed.

(** X16.  The filter of [backup] and [recovery] picks exactly the names that
    end in [.kju]: those that are some stem, the empty one included,
    followed by [.kju]. *)
Theorem is_kju_iff_suffix (file : string) :
  is_kju file = true <-> exists stem : string, file = stem ++ ".kju".
Proof.
  unfold is_kju. split.
  - intros H. apply andb_true_iff in H. destruct H as [Hlen Hsuffix].
    apply Nat.leb_le in Hlen. apply String.eqb_eq in Hsuffix.
    exists (substring 0 (String.length file - 4) file).
    rewrite <- Hsuffix.
    pose proof (substring_split file (String.length file - 4)) as Hsplit.
    replace (String.length file - (String.length file - 4))%nat with 4%nat
      in Hsplit by lia.
    apply Hsplit. lia.
  - intros [stem ->]. rewrite length_append. cbn [String.length].
    replace (String.length stem + 4 - 4)%nat with (String.length stem) by lia.
    rewrite substring_past.
    apply andb_true_iff. split; [apply Nat.leb_le; lia|reflexivity].
Qed.

(** * Iteration *)

(** X17.  [forEach] visits the buffer in order: after a push it visits what
    was there and then the pushed items, in call order; after a drain it
    visits nothing. *)
Theorem forEach_follows_the_buffer (A : Type) (fn : value -> A -> A)
    (items : list value) (w : world) (a : A) :
  forEach fn (push items w) a
  = fold_left (fun acc v => fn v acc) items (forEach fn w a) /\
  forEach fn (drain w) a = a.
Proof.
  unfold forEach, push, drain. open_world w. split; [|reflexivity].
  break_matches; apply fold_left_app.
Qed.

(** * Startup *)

Section StartupFacts.

Variable JSON_parse : string -> option value.
Variable array_like : list (string * value) -> list value.

Local Abbreviation loop := (event_loop JSON_parse array_like).
Local Abbreviation items_of := (recovered_items JSON_parse array_like).
Local Abbreviation run := (calls JSON_parse array_like).




Lemma new_pending (dirname : string) (now : Z) (cfg : configuration)
    (d : filesystem) :
  let w := kju_new dirname now cfg d in
  pending w = (if recover (self w) then [ExistsPath; Exists] else [Exists]) /\
  buffer (self w) = [] /\ disk w = d /\
  emitted w = (if enabled (self w) then [Enabled] else []).
Proof.
  unfold kju_new, recovery, enable.
  destruct (or_default (cfg_recover cfg) true),
           (or_default (cfg_enabled cfg) true); cbn; repeat split; reflexivity.
Qed.






Lemma disk_step (c : call) (w : world) :
  disk (apply_call JSON_parse array_like c w) = disk w.
Proof.
  destruct c; unfold_calls; open_world w; break_matches; reflexivity.
Qed.

(** X21.  Nothing the instance does writes, renames or removes a file: the
    file system after any run, and after a [backup] at its end, is the
    file system before it. *)
Theorem no_file_is_ever_written (cs : list call) (w : world) :
  disk (run cs w) = disk w /\
  disk (fst (backup (run cs w))) = disk w.
Proof.
  assert (H : disk (run cs w) = disk w).
  { revert w. induction cs as [|c cs IH]; intros w; cbn; [reflexivity|].
    rewrite IH. apply disk_step. }
  split; [exact H|].
  destruct (backup_changes_nothing_but_the_console (run cs w)) as [-> _].
  exact H.
Qed.

Lemma passive_step (c : call) (w : world) :
  timeout (self w) = None ->
  passive c = true ->
  timeout (self (apply_call JSON_parse array_like c w)) = None /\
  filter is_data (emitted (apply_call JSON_parse array_like c w))
  = filter is_data (emitted w) /\
  drained (self (apply_call JSON_parse array_like c w)) = drained (self w).
Proof.
  destruct c; try discriminate; unfold_calls; open_world w; intros -> _;
    break_matches; rewrite ?filter_app; cbn; rewrite ?app_nil_r;
    repeat split; reflexivity.
Qed.

(** X22.  A queue without a timer publishes nothing, however much is pushed
    or recovered and however full it gets: as long as nobody calls
    [enable] or [drain], ticks, pushes, completions and [disable] emit no
    data signal and count no drain. *)
Theorem stopped_queue_never_publishes (cs : list call) (w : world) :
  timeout (self w) = None ->
  forallb passive cs = true ->
  filter is_data (emitted (run cs w)) = filter is_data (emitted w) /\
  drained (self (run cs w)) = drained (self w) /\
  timeout (self (run cs w)) = None.
Proof.
  revert w. induction cs as [|c cs IH]; intros w Htimer Hcs; cbn.
  - repeat split; trivial.
  - cbn in Hcs. apply andb_true_iff in Hcs. destruct Hcs as [Hc Hcs].
    destruct (passive_step c w Htimer Hc) as (Hnone & Hdata & Hdrained).
    destruct (IH _ Hnone Hcs) as (-> & -> & ->).
    repeat split; assumption.
Qed.

Lemma loop_unlistable (handler : bool) (fuel : nat) (w : world)
    (err : string) :
  pending w = [ExistsPath; Exists] ->
  exists_ (disk w) (path (self w)) = true ->
  readdir (disk w) (path (self w)) = Err err ->
  loop handler (3 + fuel) w = (emit (ErrorBackup err) (set_pending [] w), []).
Proof.
  intros Hp Hexists Hlist. destruct w as [k e d c x p].
  cbn in Hp, Hlist, Hexists. subst p.
  cbn [Nat.add event_loop pending]. unfold run_callback.
  cbn -[exists_ readdir event_loop]. rewrite Hexists.
  cbn -[exists_ readdir event_loop]. rewrite Hexists.
  cbn -[exists_ readdir event_loop]. rewrite Hlist.
  cbn -[exists_ readdir event_loop]. destruct fuel; reflexivity.
Qed.

(** X23.  A persistence path that exists but cannot be listed (a plain file,
    a directory without permission): recovery emits the listing error as
    one [error.backup] signal and reads nothing; no exception is raised
    and the buffer stays empty. *)
Theorem unlistable_directory_is_reported (dirname : string) (now : Z)
    (cfg : configuration) (d : filesystem) (err : string) (handler : bool)
    (fuel : nat) :
  let w := kju_new dirname now cfg d in
  recover (self w) = true ->
  exists_ d (path (self w)) = true ->
  readdir d (path (self w)) = Err err ->
  (3 <= fuel)%nat ->
  let r := loop handler fuel w in
  emitted (fst r) = (emitted w ++ [ErrorBackup err])%list /\
  buffer (self (fst r)) = [] /\
  pending (fst r) = [] /\
  snd r = [].
Proof.
  intros w Hrecover Hexists Hlist Hfuel.
  destruct (new_pending dirname now cfg d) as (Hp & Hb & Hd & _).
  fold w in Hp, Hb, Hd. rewrite Hrecover in Hp.
  rewrite <- Hd in Hexists, Hlist. clearbody w.
  replace fuel with (3 + (fuel - 3))%nat by lia.
  cbv zeta.
  rewrite (loop_unlistable handler (fuel - 3) w err Hp Hexists Hlist).
  cbn. rewrite Hb. repeat split; reflexivity.
Qed.

End StartupFacts.

(** The theorems of the startup at concrete directories. *)




Lemma stopped_queue_never_publishes_witness :
  let stopped := mk_configuration (Some 2%Q) None None None (Some false) None
                                  None None in
  let w := kju_new lib 0 stopped (directory "/srv/kju/lib/" []) in
  let w' := calls parse_strings no_objects
                  [Push [VNull; VNull; VNull]; Update; Complete; Disable false;
                   Push [VNull]; Update] w in
  filter is_data (emitted w') = filter is_data (emitted w) /\
  drained (self w') = drained (self w) /\
  timeout (self w') = None.
Proof.
  cbv zeta.
  apply (stopped_queue_never_publishes parse_strings no_objects);
    reflexivity.
Defined.

Lemma unlistable_directory_is_reported_witness :
  let d := [("/data/", File "not a directory")] in
  let r := event_loop parse_strings no_objects false 3
                      (kju_new lib 0 data_dir d) in
  emitted (fst r) = [Enabled; ErrorBackup "ENOTDIR, /data/"] /\
  buffer (self (fst r)) = [] /\
  pending (fst r) = [] /\
  snd r = [].
Proof.
  cbv zeta.
  apply (unlistable_directory_is_reported parse_strings no_objects
           lib 0 data_dir [("/data/", File "not a directory")]
           "ENOTDIR, /data/" false 3);
    [reflexivity|reflexivity|reflexivity|lia].
Defined.

(** * Push, drain and ticks together *)

(** X24.  A push directly followed by a drain publishes, as one batch, what
    was buffered followed by the pushed items in call order, with their
    total as the count; it leaves the buffer empty, counts one drain and
    adds the total to [processed]. *)
Theorem drain_after_push (items : list value) (w : world) :
  let w' := drain (push items w) in
  let total := length (self w) + Z.of_nat (List.length items) in
  emitted w'
  = (emitted w ++ [Data (buffer (self w) ++ items) total])%list /\
  buffer (self w') = [] /\
  length (self w') = 0 /\
  drained (self w') = drained (self w) + 1 /\
  processed (self w') = processed (self w) + total.
Proof.
  unfold push. open_world w.
  split_ifs; repeat split; reflexivity.
Qed.

Lemma ticks_stopped (n : nat) (w : world) :
  timeout (self w) = None -> ticks n w = w.
Proof.
  induction n as [|n IH]; intros H; [reflexivity|].
  cbn. rewrite (update_disabled w H). now apply IH.
Qed.

(** X25.  After [disable] the timer is harmless: ticks that still arrive
    change nothing, whatever is in the buffer. *)
Theorem ticks_after_disable_do_nothing (n : nat) (nocommit : bool)
    (w : world) :
  ticks n (disable nocommit w) = disable nocommit w.
Proof. apply ticks_stopped, disable_stops. Qed.

(** ** Sustained overfill *)

(** One round of a busy producer on a running, empty queue: the items reach
    the limit, so the tick takes the lower branch. *)
Lemma round_full (items : list value) (w : world) (t : Q) :
  length (self w) = 0 ->
  timeout (self w) = Some t ->
  items <> [] ->
  Qle_bool (limit (self w)) (inject_Z (Z.of_nat (List.length items))) = true ->
  let w' := update (push items w) in
  length (self w') = 0 /\
  timeout (self w') = Some (interval (self w')) /\
  ms (self w') = ms (self w) /\
  minimum (self w') = minimum (self w) /\
  limit (self w') = limit (self w) /\
  warnings (self w') = warnings (self w) /\
  interval (self w')
  = (if Qle_bool (interval (self w)) (minimum (self w))
     then minimum (self w)
     else (interval (self w) - ms (self w))%Q) /\
  filter is_minimum_warning (emitted w')
  = (filter is_minimum_warning (emitted w)
     ++ (if warnings (self w)
            && Qeq_bool (if Qle_bool (interval (self w)) (minimum (self w))
                         then minimum (self w)
                         else (interval (self w) - ms (self w))%Q)
                        (minimum (self w))
         then [WarningMinimum] else []))%list.
Proof.
  intros Hlen Htimer Hitems Hfull.
  assert (Hpos : (Z.of_nat (List.length items) =? 0) = false).
  { destruct items; [congruence|]. apply Z.eqb_neq. cbn [List.length]. lia. }
  remember (Z.of_nat (List.length items)) as n eqn:Hn.
  unfold push. rewrite <- Hn, Hlen. cbn [Z.add].
  unfold update. open_world w. subst timeout0. rewrite Hfull. cbn.
  unfold Qlt_bool. rewrite Hpos, Hfull. cbn.
  break_matches; try (rewrite Hpos in *; discriminate); try congruence;
    rewrite ?filter_app; cbn; rewrite ?app_nil_r;
    repeat split; reflexivity.
Qed.



Lemma rounds_stay (m : nat) (items : list value) (w : world) (t : Q) :
  length (self w) = 0 ->
  timeout (self w) = Some t ->
  items <> [] ->
  Qle_bool (limit (self w)) (inject_Z (Z.of_nat (List.length items))) = true ->
  (interval (self w) <= minimum (self w))%Q ->
  interval (self (rounds (S m) items w)) = minimum (self w) /\
  filter is_minimum_warning (emitted (rounds (S m) items w))
  = (filter is_minimum_warning (emitted w)
     ++ (if warnings (self w) then repeat WarningMinimum (S m) else []))%list.
Proof.
  revert w t.
  induction m as [|m IH]; intros w t Hlen Htimer Hitems Hfull Hbelow;
    destruct (round_full items w t Hlen Htimer Hitems Hfull)
      as (Hlen' & Htimer' & Hms' & Hmin' & Hlimit' & Hwarn' & Hi' & Hsignal);
    apply Qle_bool_iff in Hbelow; rewrite Hbelow in Hi', Hsignal;
    assert (Hsame : Qeq_bool (minimum (self w)) (minimum (self w)) = true)
      by (apply Qeq_bool_iff; reflexivity);
    rewrite Hsame, andb_true_r in Hsignal.
  - cbn [rounds]. split; [exact Hi'|].
    rewrite Hsignal. destruct (warnings (self w)); reflexivity.
  - change (rounds (S (S m)) items w)
      with (rounds (S m) items (update (push items w))).
    destruct (IH (update (push items w)) _ Hlen' Htimer' Hitems)
      as [Hstay Hwarns].
    + now rewrite Hlimit'.
    + rewrite Hmin', Hi'. lra.
    + rewrite Hstay, Hwarns, Hsignal, Hmin', Hwarn'. split; [reflexivity|].
      rewrite <- app_assoc. destruct (warnings (self w)); reflexivity.
Qed.



(** X27.  The floor warning is continuous as well: once the interval of a
    running queue is at (or below) the minimum, every further round of a
    producer that reaches the limit keeps it at the minimum and, with
    warnings on, emits one more warning.minimum. *)
Theorem floor_warns_on_every_round (m : nat) (items : list value)
    (w : world) (t : Q) :
  length (self w) = 0 ->
  timeout (self w) = Some t ->
  items <> [] ->
  Qle_bool (limit (self w)) (inject_Z (Z.of_nat (List.length items))) = true ->
  (interval (self w) <= minimum (self w))%Q ->
  interval (self (rounds (S m) items w)) = minimum (self w) /\
  filter is_minimum_warning (emitted (rounds (S m) items w))
  = (filter is_minimum_warning (emitted w)
     ++ (if warnings (self w) then repeat WarningMinimum (S m) else []))%list.
Proof. apply rounds_stay. Qed.

Lemma floor_warns_on_every_round_witness :
  let w := rounds 5 [VNull]
             (kju_new lib 0 (with_limit 1 (with_pace 1000 100 defaults))
                      (directory "/srv/kju/lib/" [])) in
  interval (self (rounds 2 [VNull] w)) = minimum (self w) /\
  filter is_minimum_warning (emitted (rounds 2 [VNull] w))
  = [WarningMinimum; WarningMinimum; WarningMinimum].
Proof.
  cbv zeta.
  assert (Hlen : length (self (rounds 5 [VNull]
            (kju_new lib 0 (with_limit 1 (with_pace 1000 100 defaults))
               (directory "/srv/kju/lib/" [])))) = 0) by reflexivity.
  assert (Htimer : timeout (self (rounds 5 [VNull]
            (kju_new lib 0 (with_limit 1 (with_pace 1000 100 defaults))
               (directory "/srv/kju/lib/" [])))) = Some 500%Q)
    by reflexivity.
  assert (Hitems : [VNull] <> []) by discriminate.
  assert (Hfull : Qle_bool
            (limit (self (rounds 5 [VNull]
               (kju_new lib 0 (with_limit 1 (with_pace 1000 100 defaults))
                  (directory "/srv/kju/lib/" [])))))
            (inject_Z (Z.of_nat (List.length [VNull]))) = true)
    by reflexivity.
  assert (Hmin : (interval (self (rounds 5 [VNull]
            (kju_new lib 0 (with_limit 1 (with_pace 1000 100 defaults))
               (directory "/srv/kju/lib/" []))))
          <= minimum (self (rounds 5 [VNull]
            (kju_new lib 0 (with_limit 1 (with_pace 1000 100 defaults))
               (directory "/srv/kju/lib/" [])))))%Q)
    by (vm_compute; discriminate).
  exact (floor_warns_on_every_round 1 _ _ _ Hlen Htimer Hitems Hfull Hmin).
Defined.

(** * Files that hold JSON but no array *)

(** X28.  A recovery file whose contents are valid JSON but a number, a
    string or a boolean is reported as corrupted and adds nothing, because
    [apply] refuses such an argument list inside the [try]; a file holding
    null is taken without any signal as a file without items. *)
Theorem json_that_is_no_array (JSON_parse : string -> option value)
    (array_like : list (string * value) -> list value)
    (file contents : string) (todo : value) (w : world) :
  readFile (disk w) (path (self w) ++ file) = Ok contents ->
  JSON_parse contents = Some todo ->
  let w' := fst (readFile_cb JSON_parse array_like file w) in
  (is_primitive todo = true ->
   emitted w' = (emitted w ++ [corrupted file])%list /\
   buffer (self w') = buffer (self w) /\
   length (self w') = length (self w)) /\
  (todo = VNull ->
   emitted w' = emitted w /\
   buffer (self w') = buffer (self w) /\
   length (self w') = length (self w)).
Proof.
  intros Hread Hparse. unfold readFile_cb. rewrite Hread, Hparse.
  split.
  - intros Hprimitive. destruct todo; try discriminate Hprimitive;
      repeat split; reflexivity.
  - intros ->. cbn. unfold push. open_world w.
    split_ifs; rewrite ?app_nil_r, ?Z.add_0_r; repeat split; reflexivity.
Qed.

Lemma json_that_is_no_array_witness :
  let d := directory "/data/" [("seven.kju", File "7")] in
  let w := kju_new lib 0 data_dir d in
  let w' := fst (readFile_cb parse_literals no_objects "seven.kju" w) in
  emitted w'
  = [Enabled;
     ErrorRecover "corrupted file, unable to parse contents of seven.kju"] /\
  buffer (self w') = [] /\
  length (self w') = 0.
Proof.
  cbv zeta.
  assert (Hread : readFile
            (disk (kju_new lib 0 data_dir
                     (directory "/data/" [("seven.kju", File "7")])))
            (path (self (kju_new lib 0 data_dir
                     (directory "/data/" [("seven.kju", File "7")])))
             ++ "seven.kju") = Ok "7") by reflexivity.
  assert (Hparse : parse_literals "7" = Some (VNumber 7)) by reflexivity.
  destruct (json_that_is_no_array parse_literals no_objects _ _ _ _
              Hread Hparse) as [Hprimitive _].
  exact (Hprimitive eq_refl).
Defined.
